(** * Quasi-harmonic entropy model of [calc_entropy.py]

    A shallow embedding of the thermodynamic core of
    [src/source/calc_entropy.py] and the properties its specification states.

    Arithmetic model.  A Python [float] is read as a real number: rounding,
    infinities and NaN are outside the model, with one exception.  In
    [ho_entropy] the result of [math.exp] is subtracted from 1.0 and the
    difference is divided by, or its logarithm taken: there the rounding of a
    result next to 1 to the double 1.0 decides whether an exception is raised,
    and is kept ([double_near_one]).  Where a property turns on the rounding of a
    sum, a product or a quotient, the function is also given on binary64
    floats (module [Double]) and evaluated there.  What Python signals by an
    exception is kept: every operation that can raise does so in the monad
    [py] below ([ZeroDivisionError] for a zero divisor, [ValueError] for
    [math.log] and [math.sqrt] outside their domain, [OverflowError] for
    [math.exp] beyond the double range, [TypeError] for an ordering test on a
    complex number).  A fractional power of a negative float is a complex
    number in Python 3, hence the two-case number type [pynum].  A division
    by a literal or by a constant that is not zero cannot raise and is
    written [/]; a decimal literal is the rational it denotes. *)

From Stdlib Require Import Reals Lra List String Permutation.
From Stdlib Require PrimFloat.
Import ListNotations.

Open Scope R_scope.

(** ** Exceptions *)

Inductive PyExc : Type :=
| OverflowError
| ZeroDivisionError
| ValueError
| TypeError.

Inductive py (A : Type) : Type :=
| Ret (a : A)
| Raise (e : PyExc).

Arguments Ret {A} a.
Arguments Raise {A} e.

Definition bind {A B : Type} (m : py A) (k : A -> py B) : py B :=
  match m with
  | Ret a => k a
  | Raise e => Raise e
  end.

Notation "x <- m ;; k" := (bind m (fun x => k))
  (at level 61, m at next level, right associativity).
Notation "' p <- m ;; k" := (bind m (fun x => let p := x in k))
  (at level 61, p pattern, m at next level, right associativity).

(** [try: m except OverflowError: handler] *)
Definition except_OverflowError {A : Type} (m : py A) (handler : py A) : py A :=
  match m with
  | Raise OverflowError => handler
  | other => other
  end.

(** ** Float operations that can raise *)

(** [a / b] on floats. *)
Definition fdiv (a b : R) : py R :=
  if Req_dec_T b 0 then Raise ZeroDivisionError else Ret (a / b).

(** Largest finite double, [sys.float_info.max]. *)
Definition float_max : R := (2 - / 2 ^ 52) * 2 ^ 1023.

(** [math.exp]: raises [OverflowError] when the result leaves the double
    range. *)
Definition math_exp (x : R) : py R :=
  if Rle_dec (exp x) float_max then Ret (exp x) else Raise OverflowError.

(** [math.log]: [ValueError] ("math domain error") outside [(0, inf)]. *)
Definition math_log (x : R) : py R :=
  if Rlt_dec 0 x then Ret (ln x) else Raise ValueError.

(** [math.sqrt]: [ValueError] on a negative argument. *)
Definition math_sqrt (x : R) : py R :=
  if Rle_dec 0 x then Ret (sqrt x) else Raise ValueError.

(** ** Constants *)

Definition kB : R := 1.380649e-23.
Definition h : R := 6.62607015e-34.
Definition c_m : R := 299792458.0.
Definition c_cm : R := c_m * 100.0.
(** [R] in the source; the name is the type of reals here. *)
Definition R_gas : R := 8.31446261815324.
Definition NA : R := 6.02214076e23.

Definition amu_kg : R := 1.66053906660e-27.
Definition bohr_m : R := 5.29177210903e-11.
Definition Eh_J : R := 4.3597447222071e-18.
Definition Eh_to_Jmol : R := Eh_J * NA.

(** ** Orientational softening *)

(** [_langevin]: L(x) = coth(x) - 1/x with its three branches. *)
Definition _langevin (x : R) : py R :=
  let ax := Rabs x in
  if Rlt_dec ax 1.0e-3 then
    let x2 := x * x in
    Ret ((x / 3.0) - (x * x2 / 45.0) + (2.0 * x * x2 * x2 / 945.0))
  else if Rlt_dec 50.0 ax then
    q <- fdiv 1.0 x ;;
    Ret (1.0 - q)
  else
    t <- fdiv 1.0 (tanh x) ;;
    q <- fdiv 1.0 x ;;
    Ret (t - q).

(** [_keff_from_muE] *)
Definition _keff_from_muE (muE_J T : R) : py R :=
  if Rle_dec muE_J 0.0 then Ret 0.0
  else
    x <- fdiv muE_J (kB * T) ;;
    l <- _langevin x ;;
    Ret (muE_J * l).

(** ** Harmonic-oscillator entropy *)

(** The double that a result of [math.exp] next to 1 is rounded to: the
    neighbours of 1.0 are [1 - 2^-53] and [1 + 2^-52], so a real in
    [[1 - 2^-54, 1 + 2^-53]] becomes 1.0 (ties go to 1.0, the even one).
    Away from 1 the real is kept. *)
Definition double_near_one (y : R) : R :=
  if Rle_dec (1 - / 2 ^ 54) y then
    if Rle_dec y (1 + / 2 ^ 53) then 1 else y
  else y.

(** [ho_entropy]: quantum HO entropy per mode from a wavenumber.  The two
    values of [math.exp] enter differences with 1.0 that are divided by and
    passed to [math.log]; they are taken as doubles next to 1. *)
Definition ho_entropy (nu_cm T : R) : py R :=
  if Rle_dec nu_cm 0.0 then Ret 0.0
  else
    x <- fdiv (h * c_cm * nu_cm) (kB * T) ;;
    except_OverflowError
      (ex <- math_exp x ;;
       a <- fdiv x (double_near_one ex - 1.0) ;;
       enx <- math_exp (- x) ;;
       l <- math_log (1.0 - double_near_one enx) ;;
       Ret (R_gas * (a - l)))
      (Ret 0.0).

(** ** Numbers that may be complex *)

Inductive pynum : Type :=
| PyFloat (r : R)
| PyComplex (re im : R).

(** [a ** b] for a float [a] and a positive, non-integral float [b]: the real
    power on a positive base, zero on zero, and on a negative base the
    principal complex value [|a|^b (cos (b pi) + i sin (b pi))]. *)
Definition float_pow (a b : R) : pynum :=
  if Rlt_dec 0 a then PyFloat (Rpower a b)
  else if Rlt_dec a 0 then
    PyComplex (Rpower (- a) b * cos (PI * b)) (Rpower (- a) b * sin (PI * b))
  else PyFloat 0.

Definition pynum_sub (a b : pynum) : pynum :=
  match a, b with
  | PyFloat x, PyFloat y => PyFloat (x - y)
  | PyFloat x, PyComplex re im => PyComplex (x - re) (0 - im)
  | PyComplex re im, PyFloat y => PyComplex (re - y) im
  | PyComplex re im, PyComplex re' im' => PyComplex (re - re') (im - im')
  end.

Definition pynum_mul (a b : pynum) : pynum :=
  match a, b with
  | PyFloat x, PyFloat y => PyFloat (x * y)
  | PyFloat x, PyComplex re im => PyComplex (x * re) (x * im)
  | PyComplex re im, PyFloat y => PyComplex (re * y) (im * y)
  | PyComplex re im, PyComplex re' im' =>
      PyComplex (re * re' - im * im') (re * im' + im * re')
  end.

(** [a ** 3] with the integer exponent 3. *)
Definition pynum_cube (a : pynum) : pynum :=
  match a with
  | PyFloat x => PyFloat (x ^ 3)
  | PyComplex _ _ => pynum_mul (pynum_mul a a) a
  end.

(** ** Quasi-translational frequency *)

(** [vfree_bohr3] *)
Definition vfree_bohr3 (V12 V10 : R) : pynum :=
  pynum_cube (pynum_sub (float_pow V12 (1.0 / 3.0)) (float_pow V10 (1.0 / 3.0))).

(** [nu_trans_cm].  The test [L_m <= 0.0] is an ordering test: on a complex
    [L_m] it raises [TypeError]. *)
Definition nu_trans_cm (Vfree mw_amu T : R) : py R :=
  let L_m := pynum_mul (float_pow (Vfree * 3 / (4 * PI)) (1.0 / 3.0)) (PyFloat bohr_m) in
  let m_kg := mw_amu * amu_kg in
  match L_m with
  | PyComplex _ _ => Raise TypeError
  | PyFloat L_m =>
      if Rle_dec L_m 0.0 then Ret 0.0
      else
        r <- fdiv (2.0 * PI * kB * T) m_kg ;;
        s <- math_sqrt r ;;
        omega <- fdiv (s * 1.0) L_m ;;
        let nu_hz := omega / (2.0 * PI) in
        Ret (nu_hz / c_cm)
  end.

(** ** Vector and matrix primitives *)

Definition vec3 : Type := R * R * R.
Definition mat3 : Type := vec3 * vec3 * vec3.

Definition dot3 (a b : vec3) : R :=
  let '(a0, a1, a2) := a in
  let '(b0, b1, b2) := b in
  a0 * b0 + a1 * b1 + a2 * b2.

Definition matvec3 (M : mat3) (v : vec3) : vec3 :=
  let '(M0, M1, M2) := M in
  (dot3 M0 v, dot3 M1 v, dot3 M2 v).

Definition norm3 (v : vec3) : py R := math_sqrt (dot3 v v).

(** ** Quasi-rotational frequencies *)

Definition Rltb (a b : R) : bool := if Rlt_dec a b then true else false.

(** Inner function [inertia_from_Bcm] of [nu_rot_cm]. *)
Definition inertia_from_Bcm (Bcm : R) : py R :=
  if Req_dec_T Bcm 0.0 then Ret 1e99
  else
    let B_m := Bcm * 100.0 in
    fdiv h (8.0 * PI ^ 2 * c_m * B_m).

(** Inner function [wavenumber_from_I] of [nu_rot_cm]; the variables
    [k_eff_J] and [nu_floor_cm] it captures are its first two arguments. *)
Definition wavenumber_from_I (k_eff_J nu_floor_cm I : R) : py R :=
  if Req_dec_T I 0.0 then Ret 0.0
  else
    r <- fdiv k_eff_J I ;;
    s <- math_sqrt r ;;
    let nu_hz := (1.0 / (2.0 * PI)) * s in
    let nu_cm := nu_hz / c_cm in
    if (Rltb 0.0 nu_floor_cm && Rltb nu_cm nu_floor_cm)%bool then Ret nu_floor_cm
    else Ret nu_cm.

(** [nu_rot_cm] *)
Definition nu_rot_cm (rot_cm mu_liq_au mu_gas_au : vec3) (alpha_au : mat3)
    (T nu_floor_cm : R) (use_avg_curv : bool) : py vec3 :=
  let '(A_cm, B_cm, C_cm) := rot_cm in
  let '(l0, l1, l2) := mu_liq_au in
  let '(g0, g1, g2) := mu_gas_au in
  let mu_star := (l0 - g0, l1 - g1, l2 - g2) in
  mu_star_norm <- norm3 mu_star ;;
  if Req_dec_T mu_star_norm 0.0 then Ret (0.0, 0.0, 0.0)
  else
    u0 <- fdiv (l0 - g0) mu_star_norm ;;
    u1 <- fdiv (l1 - g1) mu_star_norm ;;
    u2 <- fdiv (l2 - g2) mu_star_norm ;;
    let u := (u0, u1, u2) in
    let au := matvec3 alpha_au u in
    let P := dot3 u au in
    if Rle_dec P 0.0 then Ret (0.0, 0.0, 0.0)
    else
      muE_Eh <- fdiv (mu_star_norm ^ 2) P ;;
      let muE_J := muE_Eh * Eh_J in
      k_eff_J <- (if use_avg_curv then _keff_from_muE muE_J T else Ret muE_J) ;;
      Ia <- inertia_from_Bcm A_cm ;;
      Ib <- inertia_from_Bcm B_cm ;;
      Ic <- inertia_from_Bcm C_cm ;;
      na <- wavenumber_from_I k_eff_J nu_floor_cm Ia ;;
      nb <- wavenumber_from_I k_eff_J nu_floor_cm Ib ;;
      nc <- wavenumber_from_I k_eff_J nu_floor_cm Ic ;;
      Ret (na, nb, nc).

(** ** Boltzmann-weighted isomer entropy *)

(** A [Dict[str, float]], in insertion order. *)
Definition dict : Type := list (string * R).

Definition values (d : dict) : list R := map snd d.

(** [min] over a non-empty sequence [x :: l]: the first least element. *)
Definition py_min (x : R) (l : list R) : R :=
  fold_left (fun m e => if Rlt_dec e m then e else m) l x.

(** The [for Ei in E_Eh.values()] loop, from the accumulators [q], [num]. *)
Fixpoint isomer_loop (Emin T : R) (vals : list R) (q num : R) : py (R * R) :=
  match vals with
  | [] => Ret (q, num)
  | Ei :: rest =>
      let dE := (Ei - Emin) * Eh_to_Jmol in
      a <- fdiv (- dE) (R_gas * T) ;;
      w <- math_exp a ;;
      isomer_loop Emin T rest (q + w) (num + dE * w)
  end.

(** [S_isomer_JmolK] *)
Definition S_isomer_JmolK (E_Eh : dict) (T : R) : py R :=
  match values E_Eh with
  | [] => Ret 0.0
  | e0 :: rest =>
      let Emin := py_min e0 rest in
      '(q, num) <- isomer_loop Emin T (e0 :: rest) 0.0 0.0 ;;
      if Req_dec_T q 0 then Ret 0.0
      else
        avg <- fdiv num q ;;
        lq <- math_log q ;;
        b <- fdiv avg (R_gas * T) ;;
        Ret (R_gas * (lq + b))
  end.

(** ** One conformer of [main] *)

(** [nu_trans_cm] as [main] calls it, on what [vfree_bohr3] returned.  On a
    complex [Vfree] every value up to [L_m] is complex (complex times int,
    over float, to a float power, times float) and the test [L_m <= 0.0]
    raises [TypeError]. *)
Definition nu_trans_cm_num (Vfree : pynum) (mw_amu T : R) : py R :=
  match Vfree with
  | PyFloat v => nu_trans_cm v mw_amu T
  | PyComplex _ _ => Raise TypeError
  end.

(** The conversion of [parse_vib_entropy_JmolK] once its pattern has matched
    the [T*S] value [ts_kcalmol]. *)
Definition vib_entropy_JmolK (ts_kcalmol T : R) : py R :=
  fdiv (ts_kcalmol * 4184.0) T.

(** [Row] *)
Record Row : Type := mkRow {
  name : string;
  S_trans : R;
  S_rot : R;
  S_vib : R;
  S_isomer : R;
  S_total : R
}.

(** The arithmetic of the [try] body of the conformer loop of [main], from
    the values its parse calls returned.  An exception leaves the body: the
    conformer gets no row. *)
Definition conformer_row (d_name : string) (V10 V12 mw : R)
    (rot mu_liq mu_gas : vec3) (alpha : mat3) (ts_kcalmol : R)
    (Siso T nu_floor_rot : R) (use_avg_curv : bool) : py Row :=
  let Vfree := vfree_bohr3 V12 V10 in
  nu_tr <- nu_trans_cm_num Vfree mw T ;;
  s <- ho_entropy nu_tr T ;;
  let Strans := 3.0 * s in
  '(nua, nub, nuc) <- nu_rot_cm rot mu_liq mu_gas alpha T nu_floor_rot use_avg_curv ;;
  sa <- ho_entropy nua T ;;
  sb <- ho_entropy nub T ;;
  sc <- ho_entropy nuc T ;;
  let Srot := sa + sb + sc in
  Svib <- vib_entropy_JmolK ts_kcalmol T ;;
  let Stot := Strans + Srot + Svib + Siso in
  Ret (mkRow d_name Strans Srot Svib Siso Stot).

(** * The softening functions on binary64 floats

    [_langevin] and [_keff_from_muE] once more, on the IEEE 754 binary64
    floats of Python, with every sum, product and quotient rounded as the
    interpreter rounds it.  [math.tanh] has no counterpart among the
    primitive operations and is a variable of the section. *)

Module Double.
Import PrimFloat.
Local Open Scope float_scope.
Set Warnings "-inexact-float".

Definition kB : float := 1.380649e-23.

(** [a / b] on floats: [ZeroDivisionError] on a divisor [0.0] or [-0.0]. *)
Definition fdiv (a b : float) : py float :=
  if b =? 0 then Raise ZeroDivisionError else Ret (a / b).

Section Softening.

Variable math_tanh : float -> float.

Definition _langevin (x : float) : py float :=
  let ax := abs x in
  if ax <? 1.0e-3 then
    let x2 := x * x in
    Ret ((x / 3.0) - (x * x2 / 45.0) + (2.0 * x * x2 * x2 / 945.0))
  else if 50.0 <? ax then
    q <- fdiv 1.0 x ;;
    Ret (1.0 - q)
  else
    t <- fdiv 1.0 (math_tanh x) ;;
    q <- fdiv 1.0 x ;;
    Ret (t - q).

Definition _keff_from_muE (muE_J T : float) : py float :=
  if muE_J <=? 0.0 then Ret 0.0
  else
    x <- fdiv muE_J (kB * T) ;;
    l <- _langevin x ;;
    Ret (muE_J * l).

End Softening.

End Double.

(** * Vocabulary of the statements *)

(** Negation of a result, exceptions passing through. *)
Definition py_opp (m : py R) : py R := v <- m ;; Ret (- v).

(** The reduced frequency x = h c nu / (kB T) of [ho_entropy]. *)
Definition ho_x (nu_cm T : R) : R := h * c_cm * nu_cm / (kB * T).

(** The bracket x/(e^x - 1) - ln(1 - e^-x) of [ho_entropy]. *)
Definition ho_bracket (x : R) : R := x / (exp x - 1) - ln (1 - exp (- x)).




(** The dipole difference, liquid minus gas. *)
Definition sub3 (a b : vec3) : vec3 :=
  let '(a0, a1, a2) := a in
  let '(b0, b1, b2) := b in
  (a0 - b0, a1 - b1, a2 - b2).


(** The wavenumber (1/2 pi) sqrt(k/I) in cm^-1, before any floor. *)
Definition libration_cm (k_eff_J I : R) : R :=
  1.0 / (2.0 * PI) * sqrt (k_eff_J / I) / c_cm.

(** Excess energy of a conformer over the reference energy, in J/mol. *)
Definition excess (Emin e : R) : R := (e - Emin) * Eh_to_Jmol.

(** Boltzmann weight exp(-dE / (R T)) of a conformer. *)
Definition boltzmann (Emin T e : R) : R := exp (- excess Emin e / (R_gas * T)).

(** Partition function q, the sum of the weights. *)
Definition partition_sum (Emin T : R) (vals : list R) : R :=
  fold_right (fun e acc => boltzmann Emin T e + acc) 0 vals.

(** Weighted sum of the excess energies. *)
Definition excess_sum (Emin T : R) (vals : list R) : R :=
  fold_right (fun e acc => excess Emin e * boltzmann Emin T e + acc) 0 vals.


(** A magnitude within a hundred decimal orders of 1: products, quotients
    and roots of a few such values stay inside the double range. *)
Definition moderate (a : R) : Prop := 1.0e-100 <= a <= 1.0e100.

(** * Properties *)

(** ** Tactics and basic facts *)

Lemma fdiv_ok (a b : R) : b <> 0 -> fdiv a b = Ret (a / b).
Proof.
  intros Hb. unfold fdiv. destruct (Req_dec_T b 0) as [E|_]; [contradiction|reflexivity].
Qed.

(** Decimal literals are rationals under [Q2R]; [field] wants them opened. *)
Ltac rfield := cbv [Q2R QArith_base.Qnum QArith_base.Qden]; field.

(** Settle the outermost real-number test of the goal with [lra]. *)
Ltac rdec :=
  match goal with
  | |- context [Rlt_dec ?a ?b] =>
      destruct (Rlt_dec a b); [try (exfalso; lra) | try (exfalso; lra)]
  | |- context [Rle_dec ?a ?b] =>
      destruct (Rle_dec a b); [try (exfalso; lra) | try (exfalso; lra)]
  | |- context [Req_dec_T ?a ?b] =>
      destruct (Req_dec_T a b); [try (exfalso; lra) | try (exfalso; lra)]
  end.

Lemma kB_pos : 0 < kB.
Proof. unfold kB. lra. Qed.

Lemma h_pos : 0 < h.
Proof. unfold h. lra. Qed.

Lemma c_cm_pos : 0 < c_cm.
Proof. unfold c_cm, c_m. lra. Qed.

Lemma R_gas_pos : 0 < R_gas.
Proof. unfold R_gas. lra. Qed.

Lemma Eh_to_Jmol_pos : 0 < Eh_to_Jmol.
Proof. unfold Eh_to_Jmol, Eh_J, NA. nra. Qed.

(** ** Hyperbolic functions *)

Lemma exp_opp_mul (x : R) : exp x * exp (- x) = 1.
Proof. rewrite <- exp_plus, Rplus_opp_r. apply exp_0. Qed.

Lemma cosh_pos (x : R) : 0 < cosh x.
Proof.
  unfold cosh. pose proof (exp_pos x). pose proof (exp_pos (- x)). lra.
Qed.

Lemma sinh_pos (x : R) : 0 < x -> 0 < sinh x.
Proof.
  intros Hx. unfold sinh.
  assert (exp (- x) < exp x) by (apply exp_increasing; lra). lra.
Qed.

Lemma tanh_odd (x : R) : tanh (- x) = - tanh x.
Proof.
  unfold tanh, sinh, cosh. rewrite Ropp_involutive.
  pose proof (exp_pos x). pose proof (exp_pos (- x)).
  field. lra.
Qed.

Lemma tanh_pos (x : R) : 0 < x -> 0 < tanh x.
Proof.
  intros Hx. unfold tanh. apply Rdiv_lt_0_compat; [apply sinh_pos, Hx | apply cosh_pos].
Qed.

Lemma tanh_neq_0 (x : R) : x <> 0 -> tanh x <> 0.
Proof.
  intros Hx. destruct (Rtotal_order x 0) as [Hn|[E|Hp]]; [|contradiction|].
  - assert (0 < tanh (- x)) as Ht by (apply tanh_pos; lra).
    rewrite tanh_odd in Ht. lra.
  - pose proof (tanh_pos x Hp). lra.
Qed.

(** coth(x) - 1/x < 1 on the positive axis. *)
Lemma coth_minus_inv_lt_1 (x : R) : 0 < x -> 1 / tanh x - 1 / x < 1.
Proof.
  intros Hx.
  pose proof (exp_pos x) as Ha. pose proof (exp_pos (- x)) as Hb.
  pose proof (exp_opp_mul x) as Hab.
  assert (exp (- x) < exp x) as Hlt by (apply exp_increasing; lra).
  assert (1 + 2 * x < exp x * exp x) as H2.
  { rewrite <- exp_plus. replace (x + x) with (2 * x) by ring.
    apply exp_ineq1. lra. }
  set (a := exp x) in *. set (b := exp (- x)) in *.
  assert (2 * x * b < a - b) as Hkey by nra.
  assert (1 / tanh x = (a + b) / (a - b)) as ->.
  { unfold tanh, sinh, cosh. fold a b. field. lra. }
  apply Rmult_lt_reg_r with (x * (a - b)); [nra|].
  replace (((a + b) / (a - b) - 1 / x) * (x * (a - b)))
    with (x * (a + b) - (a - b)) by (field; lra).
  lra.
Qed.

(** sinh x < x cosh x on the positive axis, by the mean value theorem on
    x cosh x - sinh x, whose derivative is x sinh x. *)
Lemma sinh_lt_id_cosh (x : R) : 0 < x -> sinh x < x * cosh x.
Proof.
  intros Hx.
  destruct (MVT_cor2 (fun c => c * cosh c - sinh c) (fun c => c * sinh c) 0 x Hx)
    as [c [Hc [Hc0 Hcx]]].
  { intros c _.
    replace (c * sinh c) with ((1 * cosh c + id c * sinh c) - cosh c)
      by (unfold id; ring).
    apply (derivable_pt_lim_minus (id * cosh)%F sinh).
    - apply derivable_pt_lim_mult;
        [apply derivable_pt_lim_id | apply derivable_pt_lim_cosh].
    - apply derivable_pt_lim_sinh. }
  rewrite sinh_0 in Hc.
  pose proof (sinh_pos c Hc0) as Hs.
  assert (0 < c * sinh c * (x - 0)).
  { apply Rmult_lt_0_compat; [apply Rmult_lt_0_compat; assumption | lra]. }
  lra.
Qed.

(** 0 < coth(x) - 1/x on the positive axis. *)
Lemma coth_minus_inv_pos (x : R) : 0 < x -> 0 < 1 / tanh x - 1 / x.
Proof.
  intros Hx. pose proof (sinh_pos x Hx) as Hs. pose proof (cosh_pos x) as Hc.
  pose proof (sinh_lt_id_cosh x Hx) as Hlt.
  replace (1 / tanh x - 1 / x) with ((x * cosh x - sinh x) / (x * sinh x))
    by (unfold tanh; field; lra).
  apply Rdiv_lt_0_compat; [lra | apply Rmult_lt_0_compat; assumption].
Qed.

(** ** The softening function, branch by branch *)

Lemma langevin_series (x : R) :
  Rabs x < 1.0e-3 ->
  _langevin x = Ret (x / 3 - x ^ 3 / 45 + 2 * x ^ 5 / 945).
Proof.
  intros Hx. unfold _langevin. rdec. f_equal. rfield.
Qed.

Lemma langevin_asymptotic (x : R) :
  50 < Rabs x -> _langevin x = Ret (1 - 1 / x).
Proof.
  intros Hx. unfold _langevin. rdec. rdec.
  assert (x <> 0) as Hx0.
  { intros ->. rewrite Rabs_R0 in Hx. lra. }
  rewrite fdiv_ok by exact Hx0. cbn [bind]. f_equal. rfield. exact Hx0.
Qed.

Lemma langevin_exact (x : R) :
  1.0e-3 <= Rabs x <= 50 -> _langevin x = Ret (1 / tanh x - 1 / x).
Proof.
  intros Hx. unfold _langevin. rdec. rdec.
  assert (x <> 0) as Hx0.
  { intros ->. rewrite Rabs_R0 in Hx. lra. }
  rewrite fdiv_ok by (apply tanh_neq_0, Hx0).
  rewrite fdiv_ok by exact Hx0. cbn [bind]. f_equal. rfield.
  split; [exact Hx0 | apply tanh_neq_0, Hx0].
Qed.

(** C5: the softening function evaluates exactly the formula of the branch
    that |x| selects: the fifth-order series below 1e-3, the asymptotic form
    1 - 1/x above 50, and 1/tanh(x) - 1/x in between. *)
Theorem langevin_branch_formulas (x : R) :
  (Rabs x < 1.0e-3 ->
     _langevin x = Ret (x / 3 - x ^ 3 / 45 + 2 * x ^ 5 / 945)) /\
  (50 < Rabs x -> _langevin x = Ret (1 - 1 / x)) /\
  (1.0e-3 <= Rabs x <= 50 -> _langevin x = Ret (1 / tanh x - 1 / x)).
Proof.
  split; [apply langevin_series | split; [apply langevin_asymptotic | apply langevin_exact]].
Qed.

Lemma langevin_branch_formulas_witness :
  _langevin 5.0e-4 = Ret (5.0e-4 / 3 - 5.0e-4 ^ 3 / 45 + 2 * 5.0e-4 ^ 5 / 945) /\
  _langevin 100 = Ret (1 - 1 / 100) /\
  _langevin 1 = Ret (1 / tanh 1 - 1 / 1).
Proof.
  split; [apply (langevin_branch_formulas 5.0e-4); rewrite Rabs_pos_eq; lra |].
  split; [apply (langevin_branch_formulas 100); rewrite Rabs_pos_eq; lra |].
  apply (langevin_branch_formulas 1); rewrite Rabs_pos_eq; lra.
Defined.

(** The value at the origin. *)
Lemma langevin_0 : _langevin 0 = Ret 0.
Proof.
  rewrite langevin_series by (rewrite Rabs_R0; lra). f_equal. field.
Qed.


(** C1: on the asymptotic branch the softening function is not odd; at
    x = 100 it gives 0.99 and at x = -100 it gives 1.01, not -0.99. *)
Theorem langevin_asymptotic_branch_not_odd :
  _langevin 100 = Ret (99 / 100) /\
  _langevin (- 100) = Ret (101 / 100) /\
  _langevin (- 100) <> py_opp (_langevin 100).
Proof.
  assert (_langevin 100 = Ret (99 / 100)) as H1.
  { rewrite langevin_asymptotic by (rewrite Rabs_pos_eq; lra). f_equal. lra. }
  assert (_langevin (- 100) = Ret (101 / 100)) as H2.
  { rewrite langevin_asymptotic by (rewrite Rabs_left; lra).
    f_equal. lra. }
  split; [exact H1 | split; [exact H2 |]].
  rewrite H1, H2. cbn. intros E. injection E as E. lra.
Qed.

(** On the positive axis the softening factor is returned and lies strictly
    between 0 and 1. *)
Lemma langevin_bounds (x : R) :
  0 < x -> exists l, _langevin x = Ret l /\ 0 < l < 1.
Proof.
  intros Hx. pose proof (Rabs_pos_eq x (Rlt_le _ _ Hx)) as Habs.
  destruct (Rlt_dec x 1.0e-3) as [Hs|Hs].
  - eexists. split; [apply langevin_series; lra|].
    assert (0 < x ^ 5) by (apply pow_lt; lra).
    assert (x ^ 3 <= x).
    { replace (x ^ 3) with (x * x ^ 2) by ring.
      assert (0 <= x ^ 2 <= 1) by nra. nra. }
    assert (0 <= x ^ 3) by (apply pow_le; lra).
    assert (x ^ 5 <= x).
    { replace (x ^ 5) with (x * (x ^ 2 * x ^ 2)) by ring.
      assert (0 <= x ^ 2 <= 1) by nra. nra. }
    lra.
  - destruct (Rlt_dec 50 x) as [Hl|Hl].
    + eexists. split; [apply langevin_asymptotic; lra|].
      assert (0 < 1 / x) by (apply Rdiv_lt_0_compat; lra).
      assert (1 / x < 1).
      { apply Rmult_lt_reg_r with x; [lra|].
        replace (1 / x * x) with 1 by (field; lra). lra. }
      lra.
    + eexists. split; [apply langevin_exact; lra|].
      split; [apply coth_minus_inv_pos, Hx | apply coth_minus_inv_lt_1, Hx].
Qed.



(** ** Runs on binary64 floats *)

Module DoubleRuns.
Import PrimFloat.
Set Warnings "-inexact-float".


End DoubleRuns.


(** ** The range of [math.exp] *)

Lemma float_max_ge_3 : 3 <= float_max.
Proof.
  unfold float_max.
  assert (1 <= 2 ^ 1021) as Hp by (apply pow_R1_Rle; lra).
  assert (/ 2 ^ 52 <= 1) as Hi.
  { rewrite <- Rinv_1. apply Rinv_le_contravar; [lra | apply pow_R1_Rle; lra]. }
  replace (2 ^ 1023) with (4 * 2 ^ 1021) by (simpl; ring).
  nra.
Qed.

Lemma float_max_lt_pow : float_max < 2 ^ 1024.
Proof.
  unfold float_max.
  assert (0 < 2 ^ 1023) as Hp by (apply pow_lt; lra).
  assert (0 < / 2 ^ 52) as Hi by (apply Rinv_0_lt_compat, pow_lt; lra).
  replace (2 ^ 1024) with (2 * 2 ^ 1023) by (simpl; ring).
  nra.
Qed.

Lemma exp_INR (n : nat) : exp (INR n) = exp 1 ^ n.
Proof.
  induction n as [|n IH].
  - simpl. apply exp_0.
  - rewrite S_INR, exp_plus, IH. simpl. ring.
Qed.

Lemma math_exp_ok (x : R) : exp x <= float_max -> math_exp x = Ret (exp x).
Proof. intros Hx. unfold math_exp. rdec. reflexivity. Qed.

Lemma exp_le_float_max (x : R) : x <= 1 -> exp x <= float_max.
Proof.
  intros Hx. apply Rle_trans with (exp 1).
  - destruct Hx as [Hx| ->]; [left; apply exp_increasing, Hx | right; reflexivity].
  - apply Rle_trans with 3; [apply exp_le_3 | apply float_max_ge_3].
Qed.

Lemma math_exp_overflow (x : R) : 1024 <= x -> math_exp x = Raise OverflowError.
Proof.
  intros Hx. unfold math_exp.
  assert (2 ^ 1024 <= exp x) as Hbig.
  { apply Rle_trans with (exp 1 ^ 1024).
    - apply pow_incr. pose proof (exp_ineq1 1). lra.
    - rewrite <- exp_INR. replace (INR 1024) with 1024.
      + destruct Hx as [Hx|<-]; [left; apply exp_increasing, Hx | right; reflexivity].
      + rewrite INR_IZR_INZ. reflexivity. }
  pose proof float_max_lt_pow. rdec. reflexivity.
Qed.

Lemma exp_overflows (x : R) : 1024 <= x -> float_max < exp x.
Proof.
  intros Hx. pose proof (math_exp_overflow x Hx) as H. unfold math_exp in H.
  destruct (Rle_dec (exp x) float_max) as [_|N]; [discriminate H | lra].
Qed.

(** ** Harmonic-oscillator entropy: the analytic part *)

Lemma exp_gt_1 (x : R) : 0 < x -> 1 < exp x.
Proof. intros Hx. pose proof (exp_ineq1 x). lra. Qed.

Lemma exp_opp_lt_1 (x : R) : 0 < x -> 0 < exp (- x) < 1.
Proof.
  intros Hx. split; [apply exp_pos|].
  rewrite <- exp_0. apply exp_increasing. lra.
Qed.

Lemma ho_bracket_pos (x : R) : 0 < x -> 0 < ho_bracket x.
Proof.
  intros Hx. unfold ho_bracket.
  pose proof (exp_gt_1 x Hx). pose proof (exp_opp_lt_1 x Hx) as [Hn0 Hn1].
  assert (0 < x / (exp x - 1)) by (apply Rdiv_lt_0_compat; lra).
  assert (ln (1 - exp (- x)) < 0).
  { rewrite <- ln_1. apply ln_increasing; lra. }
  lra.
Qed.




(** ** [math.exp] next to 1.0 *)

Lemma double_near_one_absorbs (y : R) :
  1 <= y <= 1 + / 2 ^ 53 -> double_near_one y = 1.
Proof.
  intros [H1 H2]. unfold double_near_one.
  destruct (Rle_dec (1 - / 2 ^ 54) y) as [_|N]; [|exfalso; lra].
  destruct (Rle_dec y (1 + / 2 ^ 53)) as [_|N]; [reflexivity | contradiction].
Qed.

Lemma double_near_one_keeps_above (y : R) :
  1 + / 2 ^ 53 < y -> double_near_one y = y.
Proof.
  intros H. unfold double_near_one.
  destruct (Rle_dec (1 - / 2 ^ 54) y) as [_|_]; [|reflexivity].
  destruct (Rle_dec y (1 + / 2 ^ 53)) as [Hle|_]; [exfalso; lra | reflexivity].
Qed.

Lemma double_near_one_keeps_below (y : R) :
  y < 1 - / 2 ^ 54 -> double_near_one y = y.
Proof.
  intros H. unfold double_near_one.
  destruct (Rle_dec (1 - / 2 ^ 54) y) as [Hle|_]; [exfalso; lra | reflexivity].
Qed.

(** Up to 2^-54 the exponential is rounded to 1.0. *)
Lemma exp_absorbed (x : R) :
  0 < x <= / 2 ^ 54 -> 1 <= exp x <= 1 + / 2 ^ 53.
Proof.
  intros [Hx0 Hx]. split; [left; apply exp_gt_1, Hx0|].
  pose proof (exp_ineq1_le (- x)) as Hlow.
  pose proof (exp_opp_mul x) as Hinv. pose proof (exp_pos x) as HE.
  assert (x <= / 2) as Hhalf by lra.
  assert (exp x * (1 - x) <= 1) as Hcap by nra.
  assert (1 <= (1 + 2 * x) * (1 - x)) as Hone by nra.
  assert (exp x <= 1 + 2 * x) as Hup.
  { apply Rmult_le_reg_r with (1 - x); lra. }
  lra.
Qed.

(** From 2^-52 on neither exponential is rounded to 1.0. *)
Lemma exp_not_absorbed (x : R) :
  / 2 ^ 52 <= x -> 1 + / 2 ^ 53 < exp x /\ exp (- x) < 1 - / 2 ^ 54.
Proof.
  intros Hx. pose proof (exp_ineq1_le x) as Hlow.
  split; [lra|].
  pose proof (exp_opp_mul x) as Hinv. pose proof (exp_pos (- x)) as Hn.
  destruct (Rlt_dec (exp (- x)) (1 - / 2 ^ 54)) as [Hlt|Hge]; [exact Hlt|].
  exfalso.
  assert (1 < (1 - / 2 ^ 54) * (1 + / 2 ^ 52)) as Hc by lra.
  assert ((1 - / 2 ^ 54) * (1 + / 2 ^ 52) <= exp (- x) * exp x) as Hprod.
  { apply Rmult_le_compat; lra. }
  rewrite Rmult_comm in Hprod. lra.
Qed.

(** ** Harmonic-oscillator entropy: the four outcomes *)


Section FixedTemperature.

Variable T : R.
Hypothesis T_pos : 0 < T.

Lemma ho_x_pos (nu : R) : 0 < nu -> 0 < ho_x nu T.
Proof.
  intros Hnu. unfold ho_x.
  pose proof h_pos. pose proof c_cm_pos. pose proof kB_pos.
  apply Rdiv_lt_0_compat.
  - apply Rmult_lt_0_compat; [apply Rmult_lt_0_compat|]; assumption.
  - apply Rmult_lt_0_compat; assumption.
Qed.


(** Past the guard on [nu_cm], what is left is the guarded block. *)
Lemma ho_entropy_unfold (nu : R) :
  0 < nu ->
  ho_entropy nu T =
  except_OverflowError
    (ex <- math_exp (ho_x nu T) ;;
     a <- fdiv (ho_x nu T) (double_near_one ex - 1.0) ;;
     enx <- math_exp (- ho_x nu T) ;;
     l <- math_log (1.0 - double_near_one enx) ;;
     Ret (R_gas * (a - l)))
    (Ret 0.0).
Proof.
  intros Hnu. unfold ho_entropy. rdec.
  pose proof kB_pos.
  rewrite fdiv_ok by (apply Rgt_not_eq, Rmult_lt_0_compat; assumption).
  reflexivity.
Qed.

(** The frozen mode: [math.exp] overflows, the handler returns 0. *)
Lemma ho_entropy_frozen (nu : R) :
  0 < nu ->
  math_exp (ho_x nu T) = Raise OverflowError ->
  ho_entropy nu T = Ret 0.
Proof.
  intros Hnu Hov. rewrite ho_entropy_unfold by assumption.
  rewrite Hov. cbn. f_equal. lra.
Qed.

(** The mode too soft for the doubles: [math.exp] returns 1.0, the
    division by [ex - 1.0] raises, and the handler is for [OverflowError]
    only. *)
Lemma ho_entropy_absorbed (nu : R) :
  0 < nu ->
  ho_x nu T <= / 2 ^ 54 ->
  ho_entropy nu T = Raise ZeroDivisionError.
Proof.
  intros Hnu Hx. rewrite ho_entropy_unfold by assumption.
  pose proof (ho_x_pos nu Hnu) as Hx0.
  pose proof (exp_absorbed (ho_x nu T) (conj Hx0 Hx)) as Habs.
  rewrite math_exp_ok by (apply exp_le_float_max; lra). cbn [bind].
  rewrite double_near_one_absorbs by exact Habs.
  unfold fdiv. destruct (Req_dec_T (1 - 1.0) 0) as [_|N]; [reflexivity|].
  exfalso. apply N. lra.
Qed.

(** The regular mode: nothing is raised and the formula is returned. *)
Lemma ho_entropy_regular (nu : R) :
  0 < nu ->
  / 2 ^ 52 <= ho_x nu T ->
  exp (ho_x nu T) <= float_max ->
  ho_entropy nu T = Ret (R_gas * ho_bracket (ho_x nu T)).
Proof.
  intros Hnu Hlow Hr. rewrite ho_entropy_unfold by assumption.
  pose proof (ho_x_pos nu Hnu) as Hx.
  pose proof (exp_gt_1 _ Hx) as Hex.
  pose proof (exp_opp_lt_1 _ Hx) as [Hn0 Hn1].
  destruct (exp_not_absorbed _ Hlow) as [Hup Hdown].
  rewrite math_exp_ok by exact Hr. cbn [bind].
  rewrite double_near_one_keeps_above by exact Hup.
  rewrite fdiv_ok by lra. cbn [bind].
  rewrite math_exp_ok by (apply exp_le_float_max; lra). cbn [bind].
  rewrite double_near_one_keeps_below by exact Hdown.
  unfold math_log. rdec. cbn. unfold ho_bracket.
  f_equal. f_equal. f_equal; [f_equal; lra | f_equal; lra].
Qed.



End FixedTemperature.




(** Past the overflow threshold the entropy is 0 at every wavenumber, so it
    does not decrease there either. *)
Lemma ho_entropy_frozen_plateau :
  ho_entropy 1.0e8 1 = Ret 0 /\ ho_entropy 2.0e8 1 = Ret 0.
Proof.
  split; (apply ho_entropy_frozen; [lra | lra |]);
    apply math_exp_overflow; unfold ho_x, h, c_cm, c_m, kB; lra.
Qed.

(** Below the rounding threshold the function raises: at nu = 1e-14 and
    T = 298.15 the reduced frequency is about 4.8e-17. *)
Lemma ho_entropy_raises_at_1e14 :
  ho_entropy 1.0e-14 298.15 = Raise ZeroDivisionError.
Proof.
  apply ho_entropy_absorbed; [lra | lra |].
  unfold ho_x, h, c_cm, c_m, kB. lra.
Qed.

(** ** Quasi-translational frequency *)

(** With no free volume the cage length is 0 and the wavenumber is 0,
    whatever the mass. *)
Lemma nu_trans_cm_zero_volume (mw_amu T : R) : nu_trans_cm 0 mw_amu T = Ret 0.
Proof.
  unfold nu_trans_cm, float_pow.
  replace (0 * 3 / (4 * PI)) with 0 by (field; apply PI_neq0).
  rdec. cbn. rdec. f_equal. lra.
Qed.

(** With a negative free volume the cage length is complex and the test
    [L_m <= 0.0] raises. *)
Lemma nu_trans_cm_negative_volume (Vfree mw_amu T : R) :
  Vfree < 0 -> nu_trans_cm Vfree mw_amu T = Raise TypeError.
Proof.
  intros HV. unfold nu_trans_cm, float_pow.
  assert (Vfree * 3 / (4 * PI) < 0) as Hneg.
  { pose proof PI_RGT_0.
    assert (0 < / (4 * PI)) by (apply Rinv_0_lt_compat; lra).
    unfold Rdiv. nra. }
  rdec. rdec. reflexivity.
Qed.

(** A scaled cavity smaller than the unscaled one gives a negative free
    volume. *)
Lemma vfree_bohr3_negative (V12 V10 : R) :
  0 < V12 < V10 -> exists v, vfree_bohr3 V12 V10 = PyFloat v /\ v < 0.
Proof.
  intros [H12 H10]. unfold vfree_bohr3, float_pow. rdec. rdec. cbn.
  eexists. split; [reflexivity|].
  assert (Rpower V12 (1.0 / 3.0) < Rpower V10 (1.0 / 3.0)) as Hlt.
  { apply Rlt_Rpower_l; lra. }
  set (d := Rpower V12 (1.0 / 3.0) - Rpower V10 (1.0 / 3.0)).
  assert (d < 0) as Hd by (unfold d; lra).
  replace (d * (d * (d * 1))) with (- ((- d) * ((- d) * (- d)))) by ring.
  assert (0 < (- d) * ((- d) * (- d))) by (repeat apply Rmult_lt_0_compat; lra).
  lra.
Qed.

(** C8: at the free volume -1 the function raises [TypeError] instead of
    returning 0; at 0 it returns 0. *)
Theorem nu_trans_cm_negative_volume_raises :
  nu_trans_cm (- 1) 18.0 298.15 = Raise TypeError /\
  nu_trans_cm 0 18.0 298.15 = Ret 0.
Proof.
  split; [apply nu_trans_cm_negative_volume; lra | apply nu_trans_cm_zero_volume].
Qed.

(** ** Isomer entropy: the minimum and the loop *)

Lemma py_min_cons (x y : R) (l : list R) :
  py_min x (y :: l) = py_min (if Rlt_dec y x then y else x) l.
Proof. reflexivity. Qed.

Lemma py_min_le_head (l : list R) : forall x, py_min x l <= x.
Proof.
  induction l as [|y l IH]; intros x.
  - right. reflexivity.
  - rewrite py_min_cons. destruct (Rlt_dec y x) as [Hy|Hy].
    + apply Rle_trans with y; [apply IH | lra].
    + apply IH.
Qed.

Lemma py_min_lower_bound (l : list R) :
  forall x e, In e (x :: l) -> py_min x l <= e.
Proof.
  induction l as [|y l IH]; intros x e Hin.
  - destruct Hin as [<-|[]]. right. reflexivity.
  - rewrite py_min_cons. destruct Hin as [<-|[<-|Hin]].
    + destruct (Rlt_dec y x) as [Hy|Hy].
      * apply Rle_trans with y; [apply py_min_le_head | lra].
      * apply py_min_le_head.
    + destruct (Rlt_dec y x) as [Hy|Hy].
      * apply py_min_le_head.
      * apply Rle_trans with x; [apply py_min_le_head | lra].
    + apply IH. right. exact Hin.
Qed.

Lemma py_min_in (l : list R) : forall x, In (py_min x l) (x :: l).
Proof.
  induction l as [|y l IH]; intros x.
  - left. reflexivity.
  - rewrite py_min_cons. destruct (Rlt_dec y x) as [Hy|Hy].
    + right. apply IH.
    + destruct (IH x) as [E|Hin]; [left; exact E | right; right; exact Hin].
Qed.





(** ** Isomer entropy: the claims *)



(** C7: the isomer entropy of the empty mapping is 0, and that of a mapping
    with one conformer is exactly 0 at any energy and any T > 0. *)
Theorem S_isomer_single_conformer (T : R) :
  S_isomer_JmolK [] T = Ret 0 /\
  (0 < T -> forall (k : string) (e : R), S_isomer_JmolK [(k, e)] T = Ret 0).
Proof.
  split.
  - cbn. f_equal. lra.
  - intros HT k e. pose proof R_gas_pos as HR.
    assert (0 < R_gas * T) as HRT by (apply Rmult_lt_0_compat; assumption).
    unfold S_isomer_JmolK. cbn [values map snd]. unfold py_min.
    cbn [fold_left isomer_loop].
    replace ((e - e) * Eh_to_Jmol) with 0 by ring.
    rewrite fdiv_ok by lra.
    replace (- 0 / (R_gas * T)) with 0 by (field; lra).
    cbn [bind]. rewrite math_exp_ok by (apply exp_le_float_max; lra).
    rewrite exp_0. cbn [bind].
    replace (0.0 + 1) with 1 by lra. replace (0.0 + 0 * 1) with 0 by lra.
    rdec. rewrite fdiv_ok by lra. cbn [bind].
    unfold math_log. rdec. cbn [bind]. rewrite ln_1.
    rewrite fdiv_ok by lra. cbn [bind].
    f_equal. field. lra.
Qed.

Lemma S_isomer_single_conformer_witness :
  S_isomer_JmolK [] 298.15 = Ret 0 /\
  S_isomer_JmolK [("A"%string, -100.0)] 298.15 = Ret 0.
Proof.
  destruct (S_isomer_single_conformer 298.15) as [Hempty Hone].
  split; [exact Hempty | apply Hone; lra].
Defined.





(** ** Quasi-rotational frequencies and the floor *)







(** Past the two degenerate exits: the interaction energy is positive and
    what is left is the curvature, the three moments of inertia and the three
    wavenumbers. *)
Lemma nu_rot_cm_past_exits (A B C : R) (mu_liq mu_gas : vec3) (alpha : mat3) :
  0 < dot3 (sub3 mu_liq mu_gas) (matvec3 alpha (sub3 mu_liq mu_gas)) ->
  exists muE_J,
    0 < muE_J /\
    forall (T f : R) (use : bool),
      nu_rot_cm (A, B, C) mu_liq mu_gas alpha T f use =
      (k_eff_J <- (if use then _keff_from_muE muE_J T else Ret muE_J) ;;
       Ia <- inertia_from_Bcm A ;;
       Ib <- inertia_from_Bcm B ;;
       Ic <- inertia_from_Bcm C ;;
       na <- wavenumber_from_I k_eff_J f Ia ;;
       nb <- wavenumber_from_I k_eff_J f Ib ;;
       nc <- wavenumber_from_I k_eff_J f Ic ;;
       Ret (na, nb, nc)).
Proof.
  intros HQ.
  destruct mu_liq as [[l0 l1] l2]. destruct mu_gas as [[g0 g1] g2].
  destruct alpha as [[[[a00 a01] a02] [[a10 a11] a12]] [[a20 a21] a22]].
  cbn [sub3 dot3 matvec3] in HQ.
  unfold nu_rot_cm, norm3. cbn [dot3 matvec3].
  set (d0 := l0 - g0) in *. set (d1 := l1 - g1) in *. set (d2 := l2 - g2) in *.
  set (dd := d0 * d0 + d1 * d1 + d2 * d2).
  assert (0 < dd) as Hdd.
  { destruct (Req_dec_T dd 0) as [E|N]; [|unfold dd in *; nra].
    assert (d0 = 0 /\ d1 = 0 /\ d2 = 0) as [E0 [E1 E2]] by (unfold dd in E; nra).
    rewrite E0, E1, E2 in HQ. lra. }
  unfold math_sqrt. destruct (Rle_dec 0 dd) as [_|N]; [|exfalso; lra].
  cbn [bind].
  pose proof (sqrt_lt_R0 dd Hdd) as Hn.
  pose proof (sqrt_sqrt dd (Rlt_le _ _ Hdd)) as Hnn.
  set (n := sqrt dd) in *.
  destruct (Req_dec_T n 0.0) as [E|_]; [exfalso; lra|].
  rewrite !fdiv_ok by lra. cbn [bind].
  match goal with
  | |- context [Rle_dec ?P 0.0] =>
      assert (0 < P) as HP;
      [ replace P with
          ((d0 * (a00 * d0 + a01 * d1 + a02 * d2) +
            d1 * (a10 * d0 + a11 * d1 + a12 * d2) +
            d2 * (a20 * d0 + a21 * d1 + a22 * d2)) / (n * n)) by (field; lra);
        apply Rdiv_lt_0_compat; lra
      | destruct (Rle_dec P 0.0) as [Hle|_]; [exfalso; lra|];
        rewrite fdiv_ok by lra; cbn [bind];
        exists (n ^ 2 / P * Eh_J) ]
  end.
  split; [|reflexivity].
  apply Rmult_lt_0_compat; [|unfold Eh_J; lra].
  apply Rdiv_lt_0_compat; [nra | exact HP].
Qed.


(** *** The non-degenerate run returns *)

Lemma keff_from_muE_pos (muE T : R) :
  0 < muE -> 0 < T -> exists k, _keff_from_muE muE T = Ret k /\ 0 < k < muE.
Proof.
  intros Hmu HT. pose proof kB_pos as HkB.
  assert (0 < kB * T) as HkT by (apply Rmult_lt_0_compat; assumption).
  assert (0 < muE / (kB * T)) as Hx by (apply Rdiv_lt_0_compat; lra).
  destruct (langevin_bounds _ Hx) as [l [Hl [Hl0 Hl1]]].
  exists (muE * l). unfold _keff_from_muE. rdec.
  rewrite fdiv_ok by lra. cbn [bind]. rewrite Hl. cbn [bind].
  split; [reflexivity | nra].
Qed.

Lemma inertia_from_Bcm_pos (Bcm : R) :
  0 <= Bcm -> exists I, inertia_from_Bcm Bcm = Ret I /\ 0 < I.
Proof.
  intros HB. unfold inertia_from_Bcm. rdec.
  - eexists. split; [reflexivity | lra].
  - pose proof PI_RGT_0 as Hpi. pose proof h_pos as Hh.
    assert (0 < 8.0 * PI ^ 2 * c_m * (Bcm * 100.0)) as Hden.
    { assert (0 < PI ^ 2) by (apply pow_lt; exact Hpi).
      assert (0 < c_m) by (unfold c_m; lra).
      assert (0 < Bcm * 100.0) by lra.
      apply Rmult_lt_0_compat; [|assumption].
      apply Rmult_lt_0_compat; [|assumption].
      apply Rmult_lt_0_compat; [lra | assumption]. }
    rewrite fdiv_ok by lra.
    eexists. split; [reflexivity | apply Rdiv_lt_0_compat; assumption].
Qed.





(** * Further properties of the model *)

(** ** Softening and effective curvature *)





(** ** Harmonic-oscillator entropy *)

Lemma exp_8_le_float_max : exp 8 <= float_max.
Proof.
  replace 8 with (INR 8) by (rewrite INR_IZR_INZ; reflexivity).
  rewrite exp_INR. apply Rle_trans with (3 ^ 8).
  - apply pow_incr. split; [left; apply exp_pos | apply exp_le_3].
  - pose proof float_max_ge_3. unfold float_max in *.
    assert (3 ^ 8 <= 2 ^ 1023).
    { replace (2 ^ 1023) with (2 ^ 13 * 2 ^ 1010) by (rewrite <- pow_add; reflexivity).
      assert (1 <= 2 ^ 1010) by (apply pow_R1_Rle; lra).
      assert (3 ^ 8 <= 2 ^ 13) by lra. nra. }
    assert (/ 2 ^ 52 <= 1).
    { rewrite <- Rinv_1. apply Rinv_le_contravar; [lra | apply pow_R1_Rle; lra]. }
    assert (0 < 2 ^ 1023) by (apply pow_lt; lra).
    nra.
Qed.


(** X3: At T >= 1e-100 a wavenumber in (0, 1e100] has three outcomes, told
    apart by the reduced frequency x = h c nu / (kB T).  For x <= 2^-54 [math.exp]
    returns the double 1.0 and the division by [ex - 1.0] raises
    [ZeroDivisionError], which the handler for [OverflowError] lets through.
    For x >= 2^-52 with exp(x) in the double range a strictly positive entropy
    is returned.  When exp(x) overflows 0 is returned. *)
Theorem ho_entropy_outcomes (nu T : R) :
  1.0e-100 <= T -> 0 < nu <= 1.0e100 ->
  (h * c_cm * nu / (kB * T) <= / 2 ^ 54 ->
     ho_entropy nu T = Raise ZeroDivisionError) /\
  (/ 2 ^ 52 <= h * c_cm * nu / (kB * T) ->
   exp (h * c_cm * nu / (kB * T)) <= float_max ->
     exists s, ho_entropy nu T = Ret s /\ 0 < s) /\
  (float_max < exp (h * c_cm * nu / (kB * T)) -> ho_entropy nu T = Ret 0).
Proof.
  intros HT' [Hnu _]. assert (0 < T) as HT by lra.
  fold (ho_x nu T). split; [|split].
  - intros Hx. apply ho_entropy_absorbed; assumption.
  - intros Hlow Hr. eexists.
    split; [apply (ho_entropy_regular T HT nu Hnu Hlow Hr)|].
    apply Rmult_lt_0_compat; [apply R_gas_pos|].
    apply ho_bracket_pos, ho_x_pos; assumption.
  - intros Hov. apply (ho_entropy_frozen T HT nu Hnu).
    unfold math_exp. rdec. reflexivity.
Qed.

Lemma ho_entropy_outcomes_witness :
  ho_entropy 1.0e-14 298.15 = Raise ZeroDivisionError /\
  (exists s, ho_entropy 1500 298.15 = Ret s /\ 0 < s) /\
  ho_entropy 1.0e8 1 = Ret 0.
Proof.
  split; [|split].
  - apply (ho_entropy_outcomes 1.0e-14 298.15); [lra | lra |].
    unfold h, c_cm, c_m, kB. lra.
  - apply (ho_entropy_outcomes 1500 298.15); [lra | lra | |].
    + unfold h, c_cm, c_m, kB. lra.
    + apply Rle_trans with (exp 8).
      * left. apply exp_increasing. unfold h, c_cm, c_m, kB. lra.
      * apply exp_8_le_float_max.
  - apply (ho_entropy_outcomes 1.0e8 1); [lra | lra |].
    apply exp_overflows. unfold h, c_cm, c_m, kB. lra.
Defined.

(** X4: The division by [kB * T] stands outside the [try]: at T = 0 a positive
    wavenumber raises [ZeroDivisionError]. *)
Theorem ho_entropy_zero_temperature (nu : R) :
  0 < nu -> ho_entropy nu 0 = Raise ZeroDivisionError.
Proof.
  intros Hnu. unfold ho_entropy. rdec.
  unfold fdiv. destruct (Req_dec_T (kB * 0) 0) as [_|N]; [reflexivity|].
  exfalso. apply N. ring.
Qed.

Lemma ho_entropy_zero_temperature_witness :
  ho_entropy 1500 0 = Raise ZeroDivisionError.
Proof.
  apply ho_entropy_zero_temperature. lra.
Defined.



(** ** Vector primitives *)

(** X7: [norm3] never raises: the sum of squares under the root is never
    negative.  It returns a value that is not negative, and 0 on the zero
    vector. *)
Theorem norm3_total (v : vec3) :
  exists n, norm3 v = Ret n /\ 0 <= n /\ (v = (0, 0, 0) -> n = 0).
Proof.
  destruct v as [[v0 v1] v2]. unfold norm3, dot3, math_sqrt.
  assert (0 <= v0 * v0 + v1 * v1 + v2 * v2) as Hdd by nra.
  destruct (Rle_dec 0 (v0 * v0 + v1 * v1 + v2 * v2)) as [_|N]; [|contradiction].
  eexists. split; [reflexivity|]. split; [apply sqrt_pos|].
  intros E. injection E as -> -> ->.
  replace (0 * 0 + 0 * 0 + 0 * 0) with 0 by ring. apply sqrt_0.
Qed.

(** ** Free volume and the quasi-translational frequency *)

Lemma cage_radius_pos (Vfree : R) : 0 < Vfree -> 0 < Vfree * 3 / (4 * PI).
Proof.
  intros HV. pose proof PI_RGT_0. apply Rdiv_lt_0_compat; lra.
Qed.

(** The value returned on a positive free volume, a positive mass and
    T > 0. *)
Lemma nu_trans_cm_value (Vfree mw_amu T : R) :
  0 < Vfree -> 0 < mw_amu -> 0 < T ->
  nu_trans_cm Vfree mw_amu T =
  Ret (sqrt (2.0 * PI * kB * T / (mw_amu * amu_kg)) * 1.0 /
       (Rpower (Vfree * 3 / (4 * PI)) (1.0 / 3.0) * bohr_m) / (2.0 * PI) / c_cm).
Proof.
  intros HV Hm HT. pose proof (cage_radius_pos Vfree HV) as Hr.
  unfold nu_trans_cm, float_pow.
  destruct (Rlt_dec 0 (Vfree * 3 / (4 * PI))) as [_|N]; [|contradiction].
  cbn [pynum_mul].
  assert (0 < Rpower (Vfree * 3 / (4 * PI)) (1.0 / 3.0)) as Hpow
    by (unfold Rpower; apply exp_pos).
  assert (0 < bohr_m) as Hb by (unfold bohr_m; lra).
  assert (0 < Rpower (Vfree * 3 / (4 * PI)) (1.0 / 3.0) * bohr_m) as HL
    by (apply Rmult_lt_0_compat; assumption).
  rdec.
  assert (0 < mw_amu * amu_kg) as Hkg
    by (apply Rmult_lt_0_compat; [exact Hm | unfold amu_kg; lra]).
  rewrite fdiv_ok by lra. cbn [bind].
  assert (0 <= 2.0 * PI * kB * T / (mw_amu * amu_kg)) as Harg.
  { pose proof PI_RGT_0. pose proof kB_pos.
    apply Rle_mult_inv_pos; [|exact Hkg].
    left. apply Rmult_lt_0_compat; [|exact HT].
    apply Rmult_lt_0_compat; [lra | assumption]. }
  unfold math_sqrt.
  destruct (Rle_dec 0 (2.0 * PI * kB * T / (mw_amu * amu_kg))) as [_|N];
    [|contradiction].
  cbn [bind]. rewrite fdiv_ok by lra. reflexivity.
Qed.

(** X8: On a free volume, a mass and a temperature of moderate magnitude
    the translational wavenumber is returned and is strictly positive. *)
Theorem nu_trans_cm_positive (Vfree mw_amu T : R) :
  moderate Vfree -> moderate mw_amu -> moderate T ->
  exists nu, nu_trans_cm Vfree mw_amu T = Ret nu /\ 0 < nu.
Proof.
  unfold moderate. intros [HV0 _] [Hm0 _] [HT0 _].
  assert (0 < Vfree) as HV by lra. assert (0 < mw_amu) as Hm by lra.
  assert (0 < T) as HT by lra.
  eexists. split; [apply nu_trans_cm_value; assumption|].
  pose proof (cage_radius_pos Vfree HV) as Hr.
  pose proof PI_RGT_0 as Hpi. pose proof kB_pos as HkB. pose proof c_cm_pos as Hc.
  assert (0 < Rpower (Vfree * 3 / (4 * PI)) (1.0 / 3.0)) by (unfold Rpower; apply exp_pos).
  assert (0 < bohr_m) by (unfold bohr_m; lra).
  assert (0 < mw_amu * amu_kg)
    by (apply Rmult_lt_0_compat; [exact Hm | unfold amu_kg; lra]).
  assert (0 < sqrt (2.0 * PI * kB * T / (mw_amu * amu_kg))).
  { apply sqrt_lt_R0, Rdiv_lt_0_compat; [|assumption].
    apply Rmult_lt_0_compat; [|exact HT].
    apply Rmult_lt_0_compat; [lra | assumption]. }
  apply Rdiv_lt_0_compat; [|exact Hc].
  apply Rdiv_lt_0_compat; [|lra].
  apply Rdiv_lt_0_compat; [lra|].
  apply Rmult_lt_0_compat; assumption.
Qed.

Lemma nu_trans_cm_positive_witness :
  exists nu, nu_trans_cm 0.25 18.0 298.15 = Ret nu /\ 0 < nu.
Proof.
  apply nu_trans_cm_positive; unfold moderate; lra.
Defined.










(** ** Quasi-rotational frequencies *)






Lemma wavenumber_from_I_value (k f I : R) :
  0 <= k -> 0 < I ->
  wavenumber_from_I k f I =
  Ret (if (Rltb 0.0 f && Rltb (libration_cm k I) f)%bool then f
       else libration_cm k I).
Proof.
  intros Hk HI. unfold wavenumber_from_I. rdec.
  rewrite fdiv_ok by lra. cbn [bind].
  assert (0 <= k / I) as Hr by (apply Rle_mult_inv_pos; assumption).
  unfold math_sqrt. destruct (Rle_dec 0 (k / I)) as [_|N]; [|contradiction].
  cbn [bind]. fold (libration_cm k I).
  destruct (Rltb 0.0 f && Rltb (libration_cm k I) f)%bool; reflexivity.
Qed.



Lemma libration_cm_strict (k1 k2 I : R) :
  0 <= k1 < k2 -> 0 < I -> libration_cm k1 I < libration_cm k2 I.
Proof.
  intros [Hk1 Hk] HI. unfold libration_cm.
  pose proof PI_RGT_0 as Hpi. pose proof c_cm_pos as Hc.
  assert (0 < / I) as HiI by (apply Rinv_0_lt_compat, HI).
  assert (k1 / I < k2 / I) as Hq by (unfold Rdiv; apply Rmult_lt_compat_r; assumption).
  assert (0 <= k1 / I) by (apply Rle_mult_inv_pos; lra).
  assert (sqrt (k1 / I) < sqrt (k2 / I)) as Hs by (apply sqrt_lt_1; lra).
  unfold Rdiv at 1 3.
  apply Rmult_lt_compat_r; [apply Rinv_0_lt_compat, Hc|].
  apply Rmult_lt_compat_l; [|exact Hs].
  apply Rdiv_lt_0_compat; lra.
Qed.

Lemma libration_cm_nonneg (k I : R) : 0 <= k -> 0 < I -> 0 <= libration_cm k I.
Proof.
  intros Hk HI. unfold libration_cm.
  pose proof PI_RGT_0. pose proof c_cm_pos. pose proof (sqrt_pos (k / I)).
  apply Rle_mult_inv_pos; [|assumption].
  apply Rmult_le_pos; [|assumption].
  apply Rle_mult_inv_pos; lra.
Qed.

Lemma wavenumber_from_I_unfloored (k I : R) :
  0 <= k -> 0 < I -> wavenumber_from_I k 0 I = Ret (libration_cm k I).
Proof.
  intros Hk HI. rewrite wavenumber_from_I_value by assumption.
  unfold Rltb. destruct (Rlt_dec 0.0 0) as [Habs|_]; [exfalso; lra|]. reflexivity.
Qed.

(** X14: With floor 0 and past the degenerate exits, for rotational constants
    and a temperature of moderate magnitude and an interaction energy
    muE = |d|^4 Eh_J / (d^T alpha d) between 1e-100 J and 1e6 kB T (far below
    the ratio at which the double 1.0 - 1.0/x is 1.0), average-curvature
    softening lowers every librational wavenumber strictly below that of the
    plain variant ([use_avg_curv = False]). *)
Theorem nu_rot_cm_softening_lowers (A B C : R) (mu_liq mu_gas : vec3)
    (alpha : mat3) (T : R) :
  0 < dot3 (sub3 mu_liq mu_gas) (matvec3 alpha (sub3 mu_liq mu_gas)) ->
  1.0e-100 * dot3 (sub3 mu_liq mu_gas) (matvec3 alpha (sub3 mu_liq mu_gas)) <=
    dot3 (sub3 mu_liq mu_gas) (sub3 mu_liq mu_gas) *
    dot3 (sub3 mu_liq mu_gas) (sub3 mu_liq mu_gas) * Eh_J ->
  dot3 (sub3 mu_liq mu_gas) (sub3 mu_liq mu_gas) *
    dot3 (sub3 mu_liq mu_gas) (sub3 mu_liq mu_gas) * Eh_J <=
    1.0e6 * (kB * T) * dot3 (sub3 mu_liq mu_gas) (matvec3 alpha (sub3 mu_liq mu_gas)) ->
  moderate T -> moderate A -> moderate B -> moderate C ->
  exists a b c a' b' c',
    nu_rot_cm (A, B, C) mu_liq mu_gas alpha T 0 true = Ret (a, b, c) /\
    nu_rot_cm (A, B, C) mu_liq mu_gas alpha T 0 false = Ret (a', b', c') /\
    0 <= a < a' /\ 0 <= b < b' /\ 0 <= c < c'.
Proof.
  unfold moderate. intros HQ _ _ [HT0 _] [HA0 _] [HB0 _] [HC0 _].
  assert (0 < T) as HT by lra. assert (0 <= A) as HA by lra.
  assert (0 <= B) as HB by lra. assert (0 <= C) as HC by lra.
  destruct (nu_rot_cm_past_exits A B C mu_liq mu_gas alpha HQ) as [muE_J [Hmu Hrun]].
  destruct (keff_from_muE_pos muE_J T Hmu HT) as [k [Hk [Hk0 Hk1]]].
  destruct (inertia_from_Bcm_pos A HA) as [Ia [HIa HIa0]].
  destruct (inertia_from_Bcm_pos B HB) as [Ib [HIb HIb0]].
  destruct (inertia_from_Bcm_pos C HC) as [Ic [HIc HIc0]].
  exists (libration_cm k Ia), (libration_cm k Ib), (libration_cm k Ic).
  exists (libration_cm muE_J Ia), (libration_cm muE_J Ib), (libration_cm muE_J Ic).
  rewrite !Hrun, Hk, HIa, HIb, HIc. cbn [bind].
  rewrite !wavenumber_from_I_unfloored by lra. cbn [bind].
  split; [reflexivity|]. split; [reflexivity|].
  repeat split;
    first [apply libration_cm_nonneg; lra | apply libration_cm_strict; lra].
Qed.

Lemma nu_rot_cm_softening_lowers_witness :
  exists a b c a' b' c',
    nu_rot_cm (1.0, 0.5, 0.2) (0.05, 0.0, 0.0) (0.0, 0.0, 0.0)
      ((10.0, 0.0, 0.0), (0.0, 10.0, 0.0), (0.0, 0.0, 10.0)) 298.15 0 true =
    Ret (a, b, c) /\
    nu_rot_cm (1.0, 0.5, 0.2) (0.05, 0.0, 0.0) (0.0, 0.0, 0.0)
      ((10.0, 0.0, 0.0), (0.0, 10.0, 0.0), (0.0, 0.0, 10.0)) 298.15 0 false =
    Ret (a', b', c') /\
    0 <= a < a' /\ 0 <= b < b' /\ 0 <= c < c'.
Proof.
  apply nu_rot_cm_softening_lowers.
  - cbn [sub3 dot3 matvec3]. lra.
  - cbn [sub3 dot3 matvec3]. unfold Eh_J. lra.
  - cbn [sub3 dot3 matvec3]. unfold Eh_J, kB. lra.
  - unfold moderate. lra.
  - unfold moderate. lra.
  - unfold moderate. lra.
  - unfold moderate. lra.
Defined.







(** ** Isomer entropy: closed form, bounds and symmetries *)

Lemma boltzmann_pos (Emin T e : R) : 0 < boltzmann Emin T e.
Proof. apply exp_pos. Qed.

Lemma boltzmann_at_min (Emin T : R) : boltzmann Emin T Emin = 1.
Proof.
  unfold boltzmann, excess. rewrite <- exp_0. f_equal. unfold Rdiv. ring.
Qed.

Lemma partition_sum_nonneg (Emin T : R) (vals : list R) :
  0 <= partition_sum Emin T vals.
Proof.
  induction vals as [|e rest IH]; cbn [partition_sum fold_right]; [lra|].
  fold (partition_sum Emin T rest). pose proof (boltzmann_pos Emin T e). lra.
Qed.

Lemma partition_sum_ge_1 (Emin T : R) (vals : list R) :
  In Emin vals -> 1 <= partition_sum Emin T vals.
Proof.
  induction vals as [|e rest IH]; intros Hin; [destruct Hin|].
  cbn [partition_sum fold_right]. fold (partition_sum Emin T rest).
  destruct Hin as [->|Hin].
  - rewrite boltzmann_at_min. pose proof (partition_sum_nonneg Emin T rest). lra.
  - pose proof (boltzmann_pos Emin T e). specialize (IH Hin). lra.
Qed.

(** Above the reference energy and at T > 0, the loop adds the partition
    sum and the weighted excess sum to its accumulators. *)
Lemma isomer_loop_sums (Emin T : R) (vals : list R) :
  0 < T ->
  (forall e, In e vals -> Emin <= e) ->
  forall q num,
    isomer_loop Emin T vals q num =
    Ret (q + partition_sum Emin T vals, num + excess_sum Emin T vals).
Proof.
  intros HT. pose proof R_gas_pos as HR. pose proof Eh_to_Jmol_pos as HEh.
  assert (0 < R_gas * T) as HRT by (apply Rmult_lt_0_compat; assumption).
  induction vals as [|Ei rest IH]; intros Hlow q num.
  - cbn. f_equal. f_equal; lra.
  - assert (Emin <= Ei) as HEi by (apply Hlow; left; reflexivity).
    cbn [isomer_loop partition_sum excess_sum fold_right].
    fold (partition_sum Emin T rest). fold (excess_sum Emin T rest).
    fold (excess Emin Ei).
    assert (0 <= excess Emin Ei) as HdE by (unfold excess; nra).
    assert (- excess Emin Ei / (R_gas * T) <= 0) as Harg.
    { unfold Rdiv. assert (0 < / (R_gas * T)) by (apply Rinv_0_lt_compat, HRT). nra. }
    rewrite fdiv_ok by lra. cbn [bind].
    rewrite math_exp_ok by (apply exp_le_float_max; lra). cbn [bind].
    fold (boltzmann Emin T Ei).
    rewrite IH by (intros e He; apply Hlow; right; exact He).
    f_equal. f_equal; ring.
Qed.

Lemma least_value_unique (l : list R) (m1 m2 : R) :
  In m1 l -> (forall e, In e l -> m1 <= e) ->
  In m2 l -> (forall e, In e l -> m2 <= e) ->
  m1 = m2.
Proof.
  intros H1 L1 H2 L2. apply Rle_antisym; [apply L1, H2 | apply L2, H1].
Qed.

(** The value computed on a non-empty mapping at T > 0, in terms of its
    least energy [m]. *)
Lemma S_isomer_value (E_Eh : dict) (T m : R) :
  0 < T ->
  In m (values E_Eh) -> (forall e, In e (values E_Eh) -> m <= e) ->
  S_isomer_JmolK E_Eh T =
  Ret (R_gas * (ln (partition_sum m T (values E_Eh)) +
                excess_sum m T (values E_Eh) / partition_sum m T (values E_Eh) /
                (R_gas * T))).
Proof.
  intros HT Hin Hlow. unfold S_isomer_JmolK.
  destruct (values E_Eh) as [|e0 rest] eqn:Hvals; [destruct Hin|].
  assert (py_min e0 rest = m) as ->.
  { apply (least_value_unique (e0 :: rest)); try assumption.
    - apply py_min_in.
    - intros e He. apply py_min_lower_bound, He. }
  rewrite isomer_loop_sums by assumption. cbn [bind].
  pose proof (partition_sum_ge_1 m T (e0 :: rest) Hin) as Hq.
  pose proof R_gas_pos as HR.
  assert (0 < R_gas * T) as HRT by (apply Rmult_lt_0_compat; assumption).
  set (q := partition_sum m T (e0 :: rest)) in *.
  set (X := excess_sum m T (e0 :: rest)).
  replace (0.0 + q) with q by lra. replace (0.0 + X) with X by lra.
  rdec. rewrite fdiv_ok by lra. cbn [bind].
  unfold math_log. rdec. cbn [bind].
  rewrite fdiv_ok by lra. reflexivity.
Qed.

(** X18: On a non-empty mapping at T > 0, [S_isomer_JmolK] returns the
    statistical-mechanics formula R (ln q + <dE> / (R T)), with the energies
    referred to the least one [m], q the sum of the Boltzmann weights and
    <dE> their weighted mean excess energy. *)
Theorem S_isomer_closed_form (E_Eh : dict) (T m : R) :
  0 < T ->
  In m (values E_Eh) -> (forall e, In e (values E_Eh) -> m <= e) ->
  S_isomer_JmolK E_Eh T =
  Ret (R_gas * (ln (partition_sum m T (values E_Eh)) +
                excess_sum m T (values E_Eh) / partition_sum m T (values E_Eh) /
                (R_gas * T))).
Proof. apply S_isomer_value. Qed.

Lemma S_isomer_closed_form_witness :
  S_isomer_JmolK [("A"%string, -100.0); ("B"%string, -99.0)] 298.15 =
  Ret (R_gas * (ln (partition_sum (-100.0) 298.15 [-100.0; -99.0]) +
                excess_sum (-100.0) 298.15 [-100.0; -99.0] /
                partition_sum (-100.0) 298.15 [-100.0; -99.0] /
                (R_gas * 298.15))).
Proof.
  apply (S_isomer_closed_form [("A"%string, -100.0); ("B"%string, -99.0)]).
  - lra.
  - left. reflexivity.
  - cbn. intros e [<-|[<-|[]]]; lra.
Defined.




Lemma degenerate_sums (e T : R) (vals : list R) :
  (forall v, In v vals -> v = e) ->
  partition_sum e T vals = INR (List.length vals) /\ excess_sum e T vals = 0.
Proof.
  induction vals as [|v rest IH]; intros Hall.
  - cbn. split; reflexivity.
  - assert (v = e) as -> by (apply Hall; left; reflexivity).
    destruct (IH (fun v Hv => Hall v (or_intror Hv))) as [Hq HX].
    cbn [partition_sum excess_sum fold_right List.length].
    fold (partition_sum e T rest). fold (excess_sum e T rest).
    rewrite Hq, HX, boltzmann_at_min, S_INR. unfold excess. split; ring.
Qed.

(** X20: n conformers of one and the same energy at T > 0: the isomer entropy is
    exactly R ln n, the bound above. *)
Theorem S_isomer_equal_energies (E_Eh : dict) (e T : R) :
  E_Eh <> [] -> 0 < T ->
  (forall kv, In kv E_Eh -> snd kv = e) ->
  S_isomer_JmolK E_Eh T = Ret (R_gas * ln (INR (List.length E_Eh))).
Proof.
  intros Hne HT Hall.
  assert (forall v, In v (values E_Eh) -> v = e) as Hvals.
  { intros v Hv. unfold values in Hv. apply in_map_iff in Hv.
    destruct Hv as [kv [<- Hkv]]. apply Hall, Hkv. }
  assert (In e (values E_Eh)) as Hin.
  { destruct E_Eh as [|kv rest]; [contradiction Hne; reflexivity|].
    left. apply (Hall kv). left. reflexivity. }
  rewrite (S_isomer_value E_Eh T e HT Hin)
    by (intros v Hv; rewrite (Hvals v Hv); lra).
  destruct (degenerate_sums e T (values E_Eh) Hvals) as [-> ->].
  unfold values. rewrite length_map.
  f_equal. f_equal. unfold Rdiv. ring.
Qed.

Lemma S_isomer_equal_energies_witness :
  S_isomer_JmolK [("A"%string, -100.0); ("B"%string, -100.0)] 298.15 =
  Ret (R_gas * ln (INR (List.length [("A"%string, -100.0); ("B"%string, -100.0)]))).
Proof.
  apply (S_isomer_equal_energies _ (-100.0)); [discriminate | lra |].
  intros kv [<-|[<-|[]]]; reflexivity.
Defined.




(** X22: At T = 0 every non-empty mapping raises [ZeroDivisionError], in the
    first turn of the loop. *)
Theorem S_isomer_zero_temperature (E_Eh : dict) :
  E_Eh <> [] -> S_isomer_JmolK E_Eh 0 = Raise ZeroDivisionError.
Proof.
  intros Hne. destruct E_Eh as [|[k e0] rest]; [contradiction Hne; reflexivity|].
  unfold S_isomer_JmolK. cbn [values map snd isomer_loop].
  unfold fdiv. destruct (Req_dec_T (R_gas * 0) 0) as [_|N]; [reflexivity|].
  exfalso. apply N. ring.
Qed.

Lemma S_isomer_zero_temperature_witness :
  S_isomer_JmolK [("A"%string, -100.0); ("B"%string, -99.0)] 0 =
  Raise ZeroDivisionError.
Proof.
  apply S_isomer_zero_temperature. discriminate.
Defined.

(** ** One conformer of [main] *)



(** *** A rotational constant 0 *)

(** [nu_rot_cm_past_exits] with the interaction energy named:
    muE = |d|^4 Eh_J / (d^T alpha d). *)
Lemma nu_rot_cm_interaction_energy (A B C : R) (mu_liq mu_gas : vec3) (alpha : mat3) :
  0 < dot3 (sub3 mu_liq mu_gas) (matvec3 alpha (sub3 mu_liq mu_gas)) ->
  exists muE_J,
    0 < muE_J /\
    muE_J * dot3 (sub3 mu_liq mu_gas) (matvec3 alpha (sub3 mu_liq mu_gas)) =
      dot3 (sub3 mu_liq mu_gas) (sub3 mu_liq mu_gas) *
      dot3 (sub3 mu_liq mu_gas) (sub3 mu_liq mu_gas) * Eh_J /\
    forall (T f : R) (use : bool),
      nu_rot_cm (A, B, C) mu_liq mu_gas alpha T f use =
      (k_eff_J <- (if use then _keff_from_muE muE_J T else Ret muE_J) ;;
       Ia <- inertia_from_Bcm A ;;
       Ib <- inertia_from_Bcm B ;;
       Ic <- inertia_from_Bcm C ;;
       na <- wavenumber_from_I k_eff_J f Ia ;;
       nb <- wavenumber_from_I k_eff_J f Ib ;;
       nc <- wavenumber_from_I k_eff_J f Ic ;;
       Ret (na, nb, nc)).
Proof.
  intros HQ.
  destruct mu_liq as [[l0 l1] l2]. destruct mu_gas as [[g0 g1] g2].
  destruct alpha as [[[[a00 a01] a02] [[a10 a11] a12]] [[a20 a21] a22]].
  cbn [sub3 dot3 matvec3] in *.
  unfold nu_rot_cm, norm3. cbn [dot3 matvec3].
  set (d0 := l0 - g0) in *. set (d1 := l1 - g1) in *. set (d2 := l2 - g2) in *.
  set (dd := d0 * d0 + d1 * d1 + d2 * d2).
  set (Q := d0 * (a00 * d0 + a01 * d1 + a02 * d2) +
            d1 * (a10 * d0 + a11 * d1 + a12 * d2) +
            d2 * (a20 * d0 + a21 * d1 + a22 * d2)) in *.
  assert (0 < dd) as Hdd.
  { destruct (Req_dec_T dd 0) as [E|N]; [|unfold dd in *; nra].
    assert (d0 = 0 /\ d1 = 0 /\ d2 = 0) as [E0 [E1 E2]] by (unfold dd in E; nra).
    unfold Q in HQ. rewrite E0, E1, E2 in HQ. lra. }
  unfold math_sqrt. destruct (Rle_dec 0 dd) as [_|N]; [|exfalso; lra].
  cbn [bind].
  pose proof (sqrt_lt_R0 dd Hdd) as Hn.
  pose proof (sqrt_sqrt dd (Rlt_le _ _ Hdd)) as Hnn.
  set (n := sqrt dd) in *.
  destruct (Req_dec_T n 0.0) as [E|_]; [exfalso; lra|].
  rewrite !fdiv_ok by lra. cbn [bind].
  match goal with
  | |- context [Rle_dec ?P 0.0] =>
      assert (P = Q / (n * n)) as HPeq by (unfold Q; field; lra);
      assert (0 < P) as HP by (rewrite HPeq; apply Rdiv_lt_0_compat; lra);
      destruct (Rle_dec P 0.0) as [Hle|_]; [exfalso; lra|];
      rewrite fdiv_ok by lra; cbn [bind];
      exists (n ^ 2 / P * Eh_J)
  end.
  split; [|split; [|reflexivity]].
  - apply Rmult_lt_0_compat; [|unfold Eh_J; lra].
    apply Rdiv_lt_0_compat; [nra | exact HP].
  - rewrite HPeq. rewrite <- Hnn. field. lra.
Qed.

Lemma inertia_from_Bcm_zero : inertia_from_Bcm 0 = Ret 1e99.
Proof.
  unfold inertia_from_Bcm. destruct (Req_dec_T 0 0.0) as [_|N]; [reflexivity|].
  exfalso. apply N. lra.
Qed.

Lemma PI_gt_3 : 3 < PI.
Proof. pose proof PI2_3_2. lra. Qed.

(** The wavenumber of the sentinel inertia 1e99 lies below the rounding
    threshold of [ho_entropy]. *)
Lemma sentinel_mode_absorbed (k T : R) :
  0 < k <= 1 -> 1.0e-40 <= T ->
  0 < libration_cm k 1e99 /\ ho_x (libration_cm k 1e99) T <= / 2 ^ 54.
Proof.
  intros [Hk0 Hk1] HT.
  pose proof PI_gt_3 as Hpi. pose proof c_cm_pos as Hc.
  pose proof kB_pos as HkB. pose proof h_pos as Hh.
  assert (0 < k / 1e99) as Hq by (apply Rdiv_lt_0_compat; lra).
  pose proof (sqrt_lt_R0 _ Hq) as Hs0.
  assert (sqrt (k / 1e99) <= 1.0e-49) as Hs.
  { rewrite <- (sqrt_square 1.0e-49) by lra.
    apply sqrt_le_1; [lra | lra |].
    apply Rle_trans with (1 / 1e99); [|lra].
    unfold Rdiv. apply Rmult_le_compat_r; lra. }
  set (s := sqrt (k / 1e99)) in *.
  split.
  - unfold libration_cm. fold s.
    apply Rdiv_lt_0_compat; [|exact Hc].
    apply Rmult_lt_0_compat; [|exact Hs0].
    apply Rdiv_lt_0_compat; lra.
  - assert (ho_x (libration_cm k 1e99) T = h * s / (2 * PI * kB * T)) as ->.
    { unfold ho_x, libration_cm. fold s. rfield.
      repeat split; lra. }
    assert (0 < 2 * PI * kB * T) as HD.
    { apply Rmult_lt_0_compat; [|lra].
      apply Rmult_lt_0_compat; lra. }
    apply Rmult_le_reg_r with (2 * PI * kB * T); [exact HD|].
    replace (h * s / (2 * PI * kB * T) * (2 * PI * kB * T)) with (h * s)
      by (field; lra).
    assert (h * s <= h * 1.0e-49) as H1 by (apply Rmult_le_compat_l; lra).
    assert (6 * kB * 1.0e-40 <= 2 * PI * kB * T) as H2.
    { assert (6 * kB <= 2 * PI * kB) by nra.
      assert (0 < 2 * PI * kB) by nra. nra. }
    assert (h * 1.0e-49 <= / 2 ^ 54 * (6 * kB * 1.0e-40)) as H3
      by (unfold h, kB; lra).
    assert (0 < / 2 ^ 54) as H4 by lra.
    nra.
Qed.

Lemma ho_entropy_sentinel_raises (k T : R) :
  0 < k <= 1 -> 1.0e-40 <= T ->
  ho_entropy (libration_cm k 1e99) T = Raise ZeroDivisionError.
Proof.
  intros Hk HT. destruct (sentinel_mode_absorbed k T Hk HT) as [Hpos Hx].
  apply ho_entropy_absorbed; [lra | exact Hpos | exact Hx].
Qed.

Lemma wavenumber_from_I_disabled_floor (k f I : R) :
  0 <= k -> 0 < I -> f <= 0 ->
  wavenumber_from_I k f I = Ret (libration_cm k I).
Proof.
  intros Hk HI Hf. rewrite wavenumber_from_I_value by assumption.
  unfold Rltb. destruct (Rlt_dec 0.0 f) as [Habs|_]; [exfalso; lra|]. reflexivity.
Qed.

(** The run past the exits with the floor disabled: the three wavenumbers,
    and the entropy of every axis whose rotational constant is 0. *)
Lemma nu_rot_cm_sentinel_axes (A B C : R) (mu_liq mu_gas : vec3) (alpha : mat3)
    (T f : R) (use : bool) :
  0 < dot3 (sub3 mu_liq mu_gas) (matvec3 alpha (sub3 mu_liq mu_gas)) ->
  dot3 (sub3 mu_liq mu_gas) (sub3 mu_liq mu_gas) *
    dot3 (sub3 mu_liq mu_gas) (sub3 mu_liq mu_gas) * Eh_J <=
    dot3 (sub3 mu_liq mu_gas) (matvec3 alpha (sub3 mu_liq mu_gas)) ->
  1.0e-40 <= T -> 0 <= A -> 0 <= B -> 0 <= C -> f <= 0 ->
  exists a b c,
    nu_rot_cm (A, B, C) mu_liq mu_gas alpha T f use = Ret (a, b, c) /\
    (A = 0 -> ho_entropy a T = Raise ZeroDivisionError) /\
    (B = 0 -> ho_entropy b T = Raise ZeroDivisionError) /\
    (C = 0 -> ho_entropy c T = Raise ZeroDivisionError).
Proof.
  intros HQ Hup HT HA HB HC Hf.
  assert (0 < T) as HT0 by lra.
  destruct (nu_rot_cm_interaction_energy A B C mu_liq mu_gas alpha HQ)
    as [muE_J [Hmu [HmuQ Hrun]]].
  assert (muE_J <= 1) as Hmu1.
  { rewrite <- HmuQ in Hup.
    apply Rmult_le_reg_r with
      (dot3 (sub3 mu_liq mu_gas) (matvec3 alpha (sub3 mu_liq mu_gas))); lra. }
  assert (exists k, (if use then _keff_from_muE muE_J T else Ret muE_J) = Ret k /\
                    0 < k <= 1) as [k [Hk Hkb]].
  { destruct use.
    - destruct (keff_from_muE_pos muE_J T Hmu HT0) as [k [Hk Hb]].
      exists k. split; [exact Hk | lra].
    - exists muE_J. split; [reflexivity | lra]. }
  destruct (inertia_from_Bcm_pos A HA) as [Ia [HIa HIa0]].
  destruct (inertia_from_Bcm_pos B HB) as [Ib [HIb HIb0]].
  destruct (inertia_from_Bcm_pos C HC) as [Ic [HIc HIc0]].
  exists (libration_cm k Ia), (libration_cm k Ib), (libration_cm k Ic).
  split.
  - rewrite Hrun, Hk, HIa, HIb, HIc. cbn [bind].
    rewrite !wavenumber_from_I_disabled_floor by lra. reflexivity.
  - repeat split; intros E; subst;
      match goal with
      | H : inertia_from_Bcm 0 = Ret ?I |- _ =>
          rewrite inertia_from_Bcm_zero in H; injection H as <-
      end;
      apply ho_entropy_sentinel_raises; assumption.
Qed.

(** X5: A rotational constant 0 (a linear molecule) is given the moment of
    inertia 1e99, and with the floor disabled the wavenumber of that axis is
    so small that [ho_entropy] raises [ZeroDivisionError] on it.  Stated past
    the degenerate exits, for an interaction energy
    muE = |d|^4 Eh_J / (d^T alpha d) between 1e-100 J and 1 J and
    1e-40 <= T <= 1e6. *)
Theorem nu_rot_cm_zero_constant_entropy_raises (A B C : R)
    (mu_liq mu_gas : vec3) (alpha : mat3) (T f : R) (use : bool) :
  0 < dot3 (sub3 mu_liq mu_gas) (matvec3 alpha (sub3 mu_liq mu_gas)) ->
  1.0e-100 * dot3 (sub3 mu_liq mu_gas) (matvec3 alpha (sub3 mu_liq mu_gas)) <=
    dot3 (sub3 mu_liq mu_gas) (sub3 mu_liq mu_gas) *
    dot3 (sub3 mu_liq mu_gas) (sub3 mu_liq mu_gas) * Eh_J ->
  dot3 (sub3 mu_liq mu_gas) (sub3 mu_liq mu_gas) *
    dot3 (sub3 mu_liq mu_gas) (sub3 mu_liq mu_gas) * Eh_J <=
    dot3 (sub3 mu_liq mu_gas) (matvec3 alpha (sub3 mu_liq mu_gas)) ->
  1.0e-40 <= T <= 1.0e6 -> 0 <= A -> 0 <= B -> 0 <= C -> f <= 0 ->
  exists a b c,
    nu_rot_cm (A, B, C) mu_liq mu_gas alpha T f use = Ret (a, b, c) /\
    (A = 0 -> ho_entropy a T = Raise ZeroDivisionError) /\
    (B = 0 -> ho_entropy b T = Raise ZeroDivisionError) /\
    (C = 0 -> ho_entropy c T = Raise ZeroDivisionError).
Proof.
  intros HQ _ Hup [HT _] HA HB HC Hf.
  apply nu_rot_cm_sentinel_axes; assumption.
Qed.

Lemma nu_rot_cm_zero_constant_entropy_raises_witness :
  exists a b c,
    nu_rot_cm (1.0, 0.5, 0) (0.05, 0.0, 0.0) (0.0, 0.0, 0.0)
      ((10.0, 0.0, 0.0), (0.0, 10.0, 0.0), (0.0, 0.0, 10.0)) 298.15 0 true =
    Ret (a, b, c) /\
    (1.0 = 0 -> ho_entropy a 298.15 = Raise ZeroDivisionError) /\
    (0.5 = 0 -> ho_entropy b 298.15 = Raise ZeroDivisionError) /\
    (0 = 0 -> ho_entropy c 298.15 = Raise ZeroDivisionError).
Proof.
  apply nu_rot_cm_zero_constant_entropy_raises.
  - cbn [sub3 dot3 matvec3]. lra.
  - cbn [sub3 dot3 matvec3]. unfold Eh_J. lra.
  - cbn [sub3 dot3 matvec3]. unfold Eh_J. lra.
  - lra.
  - lra.
  - lra.
  - lra.
  - lra.
Defined.

(** X25: In the conformer loop of [main] with the floor disabled, a conformer
    with a rotational constant 0 gets no row: the body ends in an exception.
    Past the degenerate exits the entropy of that axis raises
    [ZeroDivisionError], unless an earlier step has raised already.  Same
    ranges as above. *)
Theorem conformer_row_skipped_on_zero_constant (d_name : string)
    (V10 V12 mw A B C : R) (mu_liq mu_gas : vec3) (alpha : mat3)
    (ts_kcalmol Siso T nu_floor_rot : R) (use_avg_curv : bool) :
  0 < dot3 (sub3 mu_liq mu_gas) (matvec3 alpha (sub3 mu_liq mu_gas)) ->
  1.0e-100 * dot3 (sub3 mu_liq mu_gas) (matvec3 alpha (sub3 mu_liq mu_gas)) <=
    dot3 (sub3 mu_liq mu_gas) (sub3 mu_liq mu_gas) *
    dot3 (sub3 mu_liq mu_gas) (sub3 mu_liq mu_gas) * Eh_J ->
  dot3 (sub3 mu_liq mu_gas) (sub3 mu_liq mu_gas) *
    dot3 (sub3 mu_liq mu_gas) (sub3 mu_liq mu_gas) * Eh_J <=
    dot3 (sub3 mu_liq mu_gas) (matvec3 alpha (sub3 mu_liq mu_gas)) ->
  1.0e-40 <= T <= 1.0e6 -> 0 <= A -> 0 <= B -> 0 <= C ->
  A = 0 \/ B = 0 \/ C = 0 ->
  nu_floor_rot <= 0 ->
  exists e,
    conformer_row d_name V10 V12 mw (A, B, C) mu_liq mu_gas alpha ts_kcalmol
      Siso T nu_floor_rot use_avg_curv = Raise e.
Proof.
  intros HQ _ Hup [HT _] HA HB HC Hzero Hf.
  destruct (nu_rot_cm_sentinel_axes A B C mu_liq mu_gas alpha T nu_floor_rot
              use_avg_curv HQ Hup HT HA HB HC Hf)
    as [a [b [c [Hrun [Ha [Hb Hc]]]]]].
  unfold conformer_row.
  destruct (nu_trans_cm_num (vfree_bohr3 V12 V10) mw T) as [nu_tr|e];
    [|exists e; reflexivity]. cbn [bind].
  destruct (ho_entropy nu_tr T) as [s|e]; [|exists e; reflexivity]. cbn [bind].
  rewrite Hrun. cbn [bind].
  destruct (ho_entropy a T) as [sa|e] eqn:Hsa; [|exists e; reflexivity]. cbn [bind].
  destruct (ho_entropy b T) as [sb|e] eqn:Hsb; [|exists e; reflexivity]. cbn [bind].
  destruct (ho_entropy c T) as [sc|e] eqn:Hsc; [|exists e; reflexivity]. exfalso.
  destruct Hzero as [E|[E|E]].
  - discriminate (Ha E).
  - discriminate (Hb E).
  - discriminate (Hc E).
Qed.

Lemma conformer_row_skipped_on_zero_constant_witness :
  exists e,
    conformer_row "001-a"%string 1000.0 1200.0 18.0 (1.0, 0.5, 0)
      (0.05, 0.0, 0.0) (0.0, 0.0, 0.0)
      ((10.0, 0.0, 0.0), (0.0, 10.0, 0.0), (0.0, 0.0, 10.0)) 3.5
      0.0 298.15 0 true = Raise e.
Proof.
  apply conformer_row_skipped_on_zero_constant.
  - cbn [sub3 dot3 matvec3]. lra.
  - cbn [sub3 dot3 matvec3]. unfold Eh_J. lra.
  - cbn [sub3 dot3 matvec3]. unfold Eh_J. lra.
  - lra.
  - lra.
  - lra.
  - lra.
  - right. right. reflexivity.
  - lra.
Defined.

(** ** The floor caps the entropy of a librational mode *)




(** ** Isomer entropy: energies and temperature on one scale *)



